(** * Binder tracing (src/coreclr/src/binder/inc/bindertracing.h)

    A shallow embedding of the [BinderTracing] namespace: the scope-bound
    [AssemblyBindOperation] and [ResolutionAttemptedOperation] objects and
    the [PathProbed] function, with the events they hand to the transport
    recorded in an explicit log.

    The header is embedded as it is built with FEATURE_EVENT_TRACE defined;
    without it [ResolutionAttemptedOperation] has no members and every
    method body is empty. *)

From stdpp Require Import base gmap strings list.

Local Open Scope Z_scope.

Module BinderTracing.

(** ** Collaborators

    [BINDER_SPACE::AssemblyName], [BINDER_SPACE::Assembly], [AssemblySpec]
    and [PEAssembly] come from other headers; the tracing code only
    holds pointers to them and asks them a few questions.  They are taken
    as parameters, together with the queries made of them. *)
Class Collaborators := {
  AssemblyName : Type;
  Assembly : Type;
  AssemblySpec : Type;
  PEAssembly : Type;
  (* does the simple name of the found assembly equal the requested one *)
  SimpleNameEquals : AssemblyName → Assembly → bool;
  (* does the found assembly pass the version/compatibility check *)
  VersionCompatible : AssemblyName → Assembly → bool;
  (* the text an AssemblySpec is queried for when a bind request is populated *)
  SpecDisplayName : AssemblySpec → string;
  SpecRequestingAssembly : AssemblySpec → string;
  SpecAssemblyLoadContext : AssemblySpec → string;
  SpecRequestingAssemblyLoadContext : AssemblySpec → string;
}.

(** An HRESULT is a 32-bit signed integer; it is only stored, passed on and
    tested for its sign, so no wrap-around arises. *)
Definition HRESULT := Z.

Definition S_OK : HRESULT := 0.
Definition E_FAIL : HRESULT := -2147467259. (* 0x80004005 *)

(** Modelled from the spec: the success test on an HRESULT (the SUCCEEDED
    macro of the platform headers, not part of this header): "if it
    indicates success".  An HRESULT indicates success when its severity
    bit is clear, that is when it is not negative. *)
Definition SUCCEEDED (hr : HRESULT) : bool := bool_decide (0 ≤ hr).

(** A null-or-valid, non-owning pointer. *)
Definition ptr (A : Type) := option A.
Definition nullptr {A : Type} : ptr A := None.

(** The address of an HRESULT variable living in some enclosing scope. *)
Definition loc := positive.

(** ** enum class Stage : uint16_t *)
Inductive Stage :=
| FindInLoadContext
| AssemblyLoadContextLoad
| PlatformAssemblies
| DefaultAssemblyLoadContextFallback
| AssemblyLoadContextResolvingEvent
| AppDomainAssemblyResolveEvent
| NotYetStarted. (* Used as flag to not fire event; not present in value map *)

Definition Stage_value (s : Stage) : Z :=
  match s with
  | FindInLoadContext => 0
  | AssemblyLoadContextLoad => 1
  | PlatformAssemblies => 2
  | DefaultAssemblyLoadContextFallback => 3
  | AssemblyLoadContextResolvingEvent => 4
  | AppDomainAssemblyResolveEvent => 5
  | NotYetStarted => 0xffff
  end.

#[global] Instance Stage_eq_dec : EqDecision Stage.
Proof. solve_decision. Defined.

(** ** enum class Result : uint16_t *)
Inductive Result :=
| Success
| AssemblyNotFound
| IncompatbileVersion
| MismatchedAssemblyName
| Failure.

Definition Result_value (r : Result) : Z :=
  match r with
  | Success => 0
  | AssemblyNotFound => 1
  | IncompatbileVersion => 2
  | MismatchedAssemblyName => 3
  | Failure => 4
  end.

#[global] Instance Result_eq_dec : EqDecision Result.
Proof. solve_decision. Defined.

(** ** enum PathSource
    This must match the BindingPathSource value map in ClrEtwAll.man *)
Inductive PathSource :=
| ApplicationAssemblies
| AppNativeImagePaths
| AppPaths
| PlatformResourceRoots
| SatelliteSubdirectory.

#[global] Instance PathSource_eq_dec : EqDecision PathSource.
Proof. solve_decision. Defined.

Section Tracing.
Context `{Collaborators}.

(** ** struct AssemblyBindOperation::BindRequest *)
Record BindRequest := {
  BindRequest_AssemblySpec : AssemblySpec;
  BindRequest_AssemblyName : string;
  BindRequest_AssemblyPath : string;
  BindRequest_RequestingAssembly : string;
  BindRequest_AssemblyLoadContext : string;
  BindRequest_RequestingAssemblyLoadContext : string;
}.

(** ** Events

    What crosses the emission boundary.  The transport is outside this
    header; an emitted event is recorded with the fields it carries. *)
Inductive Event :=
| AssemblyLoadStart
    (assemblyName assemblyPath requestingAssembly : string)
    (assemblyLoadContext requestingAssemblyLoadContext : string)
| AssemblyLoadStop
    (assemblyName assemblyPath requestingAssembly : string)
    (assemblyLoadContext requestingAssemblyLoadContext : string)
    (success cached : bool)
| ResolutionAttempted
    (stage : Stage) (result : Result)
    (assemblyName : ptr AssemblyName) (foundAssembly : ptr Assembly)
    (managedALC : Z)
| KnownPathProbed (path : string) (source : PathSource) (hr : HRESULT).

(** ** The process around the tracing objects

    - [IsEnabled] is what BinderTracing::IsEnabled() answers;
    - [EventEnabledResolutionAttempted] is what the generated query of the
      same name answers;
    - [ignored_bind] is the test behind ShouldIgnoreBind;
    - [hresults] holds the HRESULT variables of the enclosing scopes, by
      address: a [ResolutionAttemptedOperation] keeps such an address
      ([const HRESULT &m_hr]), never a copy of the value;
    - [trace] is the log of emitted events, oldest first. *)
Record World := {
  IsEnabled : bool;
  EventEnabledResolutionAttempted : bool;
  ignored_bind : AssemblySpec → bool;
  hresults : gmap loc HRESULT;
  trace : list Event;
}.

Definition with_trace (t : list Event) (w : World) : World :=
  {| IsEnabled := IsEnabled w;
     EventEnabledResolutionAttempted := EventEnabledResolutionAttempted w;
     ignored_bind := ignored_bind w;
     hresults := hresults w;
     trace := t |}.

Definition with_hresults (m : gmap loc HRESULT) (w : World) : World :=
  {| IsEnabled := IsEnabled w;
     EventEnabledResolutionAttempted := EventEnabledResolutionAttempted w;
     ignored_bind := ignored_bind w;
     hresults := m;
     trace := trace w |}.

Definition with_flags (bind resolution : bool) (w : World) : World :=
  {| IsEnabled := bind;
     EventEnabledResolutionAttempted := resolution;
     ignored_bind := ignored_bind w;
     hresults := hresults w;
     trace := trace w |}.

(** The events emitted between two states of the process. *)
Definition emitted_since (w w' : World) : list Event :=
  drop (length (trace w)) (trace w').

(** ** Method calls

    A method runs against the process and either returns, trips an
    [assert], or reads through a reference whose variable is gone. *)
Inductive Outcome (A : Type) :=
| Returned (a : A) (w : World)
| AssertionFailed
| InvalidReference.
Arguments Returned {A} a w.
Arguments AssertionFailed {A}.
Arguments InvalidReference {A}.

Definition Action (A : Type) := World → Outcome A.

Definition ret {A} (a : A) : Action A := λ w, Returned a w.

Definition bind {A B} (c : Action A) (k : A → Action B) : Action B :=
  λ w, match c w with
       | Returned a w' => k a w'
       | AssertionFailed => AssertionFailed
       | InvalidReference => InvalidReference
       end.

Notation "'let*' x ':=' c 'in' k" := (bind c (λ x, k))
  (at level 10, x name, c at level 100, k at level 200).

(** [assert] as in a checked build: a condition that does not hold ends the
    run there. *)
Definition assert (b : bool) : Action unit :=
  λ w, if b then Returned tt w else AssertionFailed.

Definition emit (e : Event) : Action unit :=
  λ w, Returned tt (with_trace (trace w ++ [e]) w).

Definition read_hr (r : loc) : Action HRESULT :=
  λ w, match hresults w !! r with
       | Some hr => Returned hr w
       | None => InvalidReference
       end.

(** ** class ResolutionAttemptedOperation *)
Record ResolutionAttemptedOperation := {
  m_hr : loc;                          (* const HRESULT &m_hr *)
  m_stage : Stage;
  m_pAssemblyName : ptr AssemblyName;
  m_pFoundAssembly : ptr Assembly;
  m_pManagedALC : Z;                   (* INT_PTR *)
  m_tracingEnabled : bool;
}.

Definition set_m_stage (stage : Stage) (this : ResolutionAttemptedOperation) :=
  {| m_hr := m_hr this;
     m_stage := stage;
     m_pAssemblyName := m_pAssemblyName this;
     m_pFoundAssembly := m_pFoundAssembly this;
     m_pManagedALC := m_pManagedALC this;
     m_tracingEnabled := m_tracingEnabled this |}.

(** Modelled from the spec: how a stage end is classified; the code that
    computes the [Result] is in the body of TraceStageEnd, which this header
    only names.  "success → Success; no module found → ModuleNotFound; found
    module with mismatched simple name → MismatchedName; found module with
    matching name but failing version/compat check → IncompatibleVersion;
    anything else failing → Failure."  A found assembly can only be
    cross-referenced against a sought name that is there; without one the
    failure is a generic one. *)
Definition GetResult (hr : HRESULT)
    (pAssemblyName : ptr AssemblyName) (pFoundAssembly : ptr Assembly) : Result :=
  if SUCCEEDED hr then Success
  else match pFoundAssembly with
       | None => AssemblyNotFound
       | Some found =>
           match pAssemblyName with
           | None => Failure
           | Some sought =>
               if negb (SimpleNameEquals sought found) then MismatchedAssemblyName
               else if negb (VersionCompatible sought found) then IncompatbileVersion
               else Failure
           end
       end.

(** Modelled from the spec: the body of
    [void TraceStageEnd(Stage resStage)], which this header only names.
    [NotYetStarted] is the "flag to not fire event" of the [Stage]
    enumeration, so nothing is emitted for it.  For a real stage the shared
    HRESULT is read through [m_hr] at this moment, the stage end is
    classified, and one event is emitted that "carries the classification,
    the stage identifier just ended, the sought name, the found module (if
    any), and the load-context handle". *)
Definition TraceStageEnd (resStage : Stage)
    (this : ResolutionAttemptedOperation) : Action unit :=
  if decide (resStage = NotYetStarted) then ret tt
  else
    let* hr := read_hr (m_hr this) in
    emit (ResolutionAttempted resStage
            (GetResult hr (m_pAssemblyName this) (m_pFoundAssembly this))
            (m_pAssemblyName this) (m_pFoundAssembly this)
            (m_pManagedALC this)).

(** The constructor.  Its initialiser list names the stage member
    [m_lastStage] where the class body names it [m_stage]; there is one
    stage member, and it starts at [NotYetStarted]. *)
Definition ResolutionAttemptedOperation_ctor (hr : loc)
    : Action ResolutionAttemptedOperation :=
  λ w, Returned
         {| m_hr := hr;
            m_stage := NotYetStarted;
            m_pAssemblyName := nullptr;
            m_pFoundAssembly := nullptr;
            m_pManagedALC := 0;
            m_tracingEnabled := EventEnabledResolutionAttempted w |}
         w.

Definition SetAssemblyName (assemblyName : ptr AssemblyName)
    (this : ResolutionAttemptedOperation) : ResolutionAttemptedOperation :=
  {| m_hr := m_hr this;
     m_stage := m_stage this;
     m_pAssemblyName := assemblyName;
     m_pFoundAssembly := m_pFoundAssembly this;
     m_pManagedALC := m_pManagedALC this;
     m_tracingEnabled := m_tracingEnabled this |}.

Definition SetManagedALC (managedALC : Z)
    (this : ResolutionAttemptedOperation) : ResolutionAttemptedOperation :=
  {| m_hr := m_hr this;
     m_stage := m_stage this;
     m_pAssemblyName := m_pAssemblyName this;
     m_pFoundAssembly := m_pFoundAssembly this;
     m_pManagedALC := managedALC;
     m_tracingEnabled := m_tracingEnabled this |}.

Definition SetFoundAssembly (assembly : ptr Assembly)
    (this : ResolutionAttemptedOperation) : ResolutionAttemptedOperation :=
  {| m_hr := m_hr this;
     m_stage := m_stage this;
     m_pAssemblyName := m_pAssemblyName this;
     m_pFoundAssembly := assembly;
     m_pManagedALC := m_pManagedALC this;
     m_tracingEnabled := m_tracingEnabled this |}.

(** [GoToStage].  The two calls in the header are written [TraceStageEnd()];
    the stage that ends is the current one ("Calling it will fire an event
    for the previous stage with whatever context the class had at that
    point"). *)
Definition GoToStage (stage : Stage)
    (this : ResolutionAttemptedOperation) : Action ResolutionAttemptedOperation :=
  if m_tracingEnabled this then
    let* _ := assert (bool_decide (m_stage this ≠ stage)) in
    let* _ := assert (bool_decide (stage ≠ NotYetStarted)) in
    let* _ := TraceStageEnd (m_stage this) this in
    ret (set_m_stage stage this)
  else ret this.

(** The destructor. *)
Definition ResolutionAttemptedOperation_dtor
    (this : ResolutionAttemptedOperation) : Action unit :=
  if m_tracingEnabled this then TraceStageEnd (m_stage this) this
  else ret tt.

(** ** Client code

    What the enclosing scope does between the construction and the
    destruction of its tracker: it calls the tracker's methods, assigns the
    HRESULT variable the tracker refers to, and meanwhile the event may be
    switched on or off in the process. *)
Inductive Call :=
| CallSetAssemblyName (assemblyName : ptr AssemblyName)
| CallSetManagedALC (managedALC : Z)
| CallSetFoundAssembly (assembly : ptr Assembly)
| CallGoToStage (stage : Stage)
| AssignHr (hr : HRESULT)
| SwitchEvent (enabled : bool).

Definition perform (c : Call) (this : ResolutionAttemptedOperation)
    : Action ResolutionAttemptedOperation :=
  match c with
  | CallSetAssemblyName n => ret (SetAssemblyName n this)
  | CallSetManagedALC h => ret (SetManagedALC h this)
  | CallSetFoundAssembly a => ret (SetFoundAssembly a this)
  | CallGoToStage s => GoToStage s this
  | AssignHr hr =>
      λ w, Returned this (with_hresults (<[m_hr this := hr]> (hresults w)) w)
  | SwitchEvent b => λ w, Returned this (with_flags (IsEnabled w) b w)
  end.

Fixpoint perform_all (cs : list Call) (this : ResolutionAttemptedOperation)
    : Action ResolutionAttemptedOperation :=
  match cs with
  | [] => ret this
  | c :: cs' => let* this' := perform c this in perform_all cs' this'
  end.

(** One whole scope: construct, run the calls, destruct. *)
Definition lifetime (hr : loc) (cs : list Call) : Action unit :=
  let* this := ResolutionAttemptedOperation_ctor hr in
  let* this' := perform_all cs this in
  ResolutionAttemptedOperation_dtor this'.

(** The stages the calls ask to enter, in order. *)
Fixpoint stages_entered (cs : list Call) : list Stage :=
  match cs with
  | [] => []
  | CallGoToStage s :: cs' => s :: stages_entered cs'
  | _ :: cs' => stages_entered cs'
  end.

(** The stage identifiers of the stage-end events of a log, in order. *)
Fixpoint stage_ends (evs : list Event) : list Stage :=
  match evs with
  | [] => []
  | ResolutionAttempted s _ _ _ _ :: evs' => s :: stage_ends evs'
  | _ :: evs' => stage_ends evs'
  end.

(** ** class AssemblyBindOperation

    The header gives the members and the signatures; no method has its body
    here. *)
Record AssemblyBindOperation := {
  m_bindRequest : BindRequest;
  m_populatedBindRequest : bool;
  m_checkedIgnoreBind : bool;
  m_ignoreBind : bool;
  m_resultAssembly : ptr PEAssembly;
  m_cached : bool;
}.

(** Modelled from the spec: the body of ShouldIgnoreBind, which this header
    only names.  "evaluated lazily and cached after first evaluation": the
    first call runs the test on the bind's AssemblySpec and stores the
    answer in [m_ignoreBind], recording in [m_checkedIgnoreBind] that it
    did; later calls answer from [m_ignoreBind]. *)
Definition ShouldIgnoreBind (this : AssemblyBindOperation)
    : Action (bool * AssemblyBindOperation) :=
  if m_checkedIgnoreBind this then ret (m_ignoreBind this, this)
  else
    λ w,
      let b := ignored_bind w (BindRequest_AssemblySpec (m_bindRequest this)) in
      Returned
        (b, {| m_bindRequest := m_bindRequest this;
               m_populatedBindRequest := m_populatedBindRequest this;
               m_checkedIgnoreBind := true;
               m_ignoreBind := b;
               m_resultAssembly := m_resultAssembly this;
               m_cached := m_cached this |})
        w.

(** Modelled from the spec: how a bind request is populated; no code for it
    is in this header.  The texts are "captured as immutable text snapshots
    at the time of population"; the path given at construction is kept.
    "populated at most once per [...] instance; a flag records whether
    population already happened." *)
Definition PopulateBindRequest (this : AssemblyBindOperation)
    : AssemblyBindOperation :=
  if m_populatedBindRequest this then this
  else
    let spec := BindRequest_AssemblySpec (m_bindRequest this) in
    {| m_bindRequest :=
         {| BindRequest_AssemblySpec := spec;
            BindRequest_AssemblyName := SpecDisplayName spec;
            BindRequest_AssemblyPath :=
              BindRequest_AssemblyPath (m_bindRequest this);
            BindRequest_RequestingAssembly := SpecRequestingAssembly spec;
            BindRequest_AssemblyLoadContext := SpecAssemblyLoadContext spec;
            BindRequest_RequestingAssemblyLoadContext :=
              SpecRequestingAssemblyLoadContext spec |};
       m_populatedBindRequest := true;
       m_checkedIgnoreBind := m_checkedIgnoreBind this;
       m_ignoreBind := m_ignoreBind this;
       m_resultAssembly := m_resultAssembly this;
       m_cached := m_cached this |}.

(** Modelled from the spec: the body of the constructor
    [AssemblyBindOperation(AssemblySpec *, const WCHAR * = nullptr)], which
    this header only names.  "If tracing is enabled, this class fires an
    assembly bind start event on construction"; if tracing is disabled
    "construction captures nothing but trivially-derived fields"; and when
    the bind is to be ignored "no start/stop event is ever emitted". *)
Definition AssemblyBindOperation_ctor
    (assemblySpec : AssemblySpec) (assemblyPath : ptr string)
    : Action AssemblyBindOperation :=
  let this :=
    {| m_bindRequest :=
         {| BindRequest_AssemblySpec := assemblySpec;
            BindRequest_AssemblyName := EmptyString;
            BindRequest_AssemblyPath := default EmptyString assemblyPath;
            BindRequest_RequestingAssembly := EmptyString;
            BindRequest_AssemblyLoadContext := EmptyString;
            BindRequest_RequestingAssemblyLoadContext := EmptyString |};
       m_populatedBindRequest := false;
       m_checkedIgnoreBind := false;
       m_ignoreBind := false;
       m_resultAssembly := nullptr;
       m_cached := false |} in
  λ w,
    if negb (IsEnabled w) then Returned this w
    else
      (let* r := ShouldIgnoreBind this in
       if r.1 then ret r.2
       else
         let this' := PopulateBindRequest r.2 in
         let req := m_bindRequest this' in
         let* _ := emit (AssemblyLoadStart
                           (BindRequest_AssemblyName req)
                           (BindRequest_AssemblyPath req)
                           (BindRequest_RequestingAssembly req)
                           (BindRequest_AssemblyLoadContext req)
                           (BindRequest_RequestingAssemblyLoadContext req)) in
         ret this') w.

(** Modelled from the spec: the body of SetResult, which this header only
    names.  "records the outcome module and cache-hit flag; [...] later
    calls overwrite." *)
Definition SetResult (assembly : ptr PEAssembly) (cached : bool)
    (this : AssemblyBindOperation) : AssemblyBindOperation :=
  {| m_bindRequest := m_bindRequest this;
     m_populatedBindRequest := m_populatedBindRequest this;
     m_checkedIgnoreBind := m_checkedIgnoreBind this;
     m_ignoreBind := m_ignoreBind this;
     m_resultAssembly := assembly;
     m_cached := cached |}.

(** Modelled from the spec: the body of the destructor, which this header
    only names.  "At destruction, if the operation should not be ignored
    [...] and tracing is enabled, a bind stop event is emitted carrying:
    whether a result module was ever set, whether it came from cache, and
    the [...] request fields", the request being populated now if it was
    not before. *)
Definition AssemblyBindOperation_dtor (this : AssemblyBindOperation)
    : Action unit :=
  λ w,
    if negb (IsEnabled w) then Returned tt w
    else
      (let* r := ShouldIgnoreBind this in
       if r.1 then ret tt
       else
         let this' := PopulateBindRequest r.2 in
         let req := m_bindRequest this' in
         emit (AssemblyLoadStop
                 (BindRequest_AssemblyName req)
                 (BindRequest_AssemblyPath req)
                 (BindRequest_RequestingAssembly req)
                 (BindRequest_AssemblyLoadContext req)
                 (BindRequest_RequestingAssemblyLoadContext req)
                 (bool_decide (is_Some (m_resultAssembly this')))
                 (m_cached this'))) w.

(** What the scope of a bind does between construction and destruction:
    it sets the result, and meanwhile tracing may be switched on or off in
    the process. *)
Inductive BindCall :=
| CallSetResult (assembly : ptr PEAssembly) (cached : bool)
| SwitchTracing (enabled : bool).

Definition bind_perform (c : BindCall) (this : AssemblyBindOperation)
    : Action AssemblyBindOperation :=
  match c with
  | CallSetResult a cached => ret (SetResult a cached this)
  | SwitchTracing b =>
      λ w, Returned this (with_flags b (EventEnabledResolutionAttempted w) w)
  end.

Fixpoint bind_perform_all (cs : list BindCall) (this : AssemblyBindOperation)
    : Action AssemblyBindOperation :=
  match cs with
  | [] => ret this
  | c :: cs' => let* this' := bind_perform c this in bind_perform_all cs' this'
  end.

Definition bind_lifetime (assemblySpec : AssemblySpec)
    (assemblyPath : ptr string) (cs : list BindCall) : Action unit :=
  let* this := AssemblyBindOperation_ctor assemblySpec assemblyPath in
  let* this' := bind_perform_all cs this in
  AssemblyBindOperation_dtor this'.

(** ** PathProbed *)

(** Modelled from the spec: the body of
    [void PathProbed(const WCHAR *path, PathSource source, HRESULT hr)],
    which this header only names.  "emits exactly one event with these
    three fields verbatim, or does nothing if tracing is globally
    disabled." *)
Definition PathProbed (path : string) (source : PathSource) (hr : HRESULT)
    : Action unit :=
  λ w, if IsEnabled w then emit (KnownPathProbed path source hr) w
       else Returned tt w.

End Tracing.

Arguments Returned {_ A} a w.
Arguments AssertionFailed {_ A}.
Arguments InvalidReference {_ A}.

End BinderTracing.

Import BinderTracing.

(** * Vocabulary of the statements *)
Section Vocabulary.
Context `{Collaborators}.

Implicit Types (this : ResolutionAttemptedOperation).

(** The one event a stage end produces. *)
Definition stage_end_event (resStage : Stage) (hr : HRESULT) this : Event :=
  ResolutionAttempted resStage
    (GetResult hr (m_pAssemblyName this) (m_pFoundAssembly this))
    (m_pAssemblyName this) (m_pFoundAssembly this) (m_pManagedALC this).

(** A real stage is any stage but the sentinel. *)
Definition real_stage (s : Stage) : list Stage :=
  if decide (s = NotYetStarted) then [] else [s].

(** The position of a stage in the order of the enumeration, the sentinel
    standing before every real stage. *)
Definition stage_rank (s : Stage) : Z :=
  if decide (s = NotYetStarted) then -1 else Stage_value s.

Fixpoint strictly_ascending (prev : Z) (ss : list Stage) : bool :=
  match ss with
  | [] => true
  | s :: ss' => bool_decide (prev < stage_rank s) && strictly_ascending (stage_rank s) ss'
  end.

(** No two neighbours of the list are equal. *)
Fixpoint no_adjacent_repeat (ss : list Stage) : Prop :=
  match ss with
  | s :: (t :: _) as ss' => s ≠ t ∧ no_adjacent_repeat ss'
  | _ => True
  end.

(** The tracer is for [spec], and if it has run the test already, the
    answer it keeps is to ignore the bind. *)
Definition suppressed (spec : AssemblySpec) (this : AssemblyBindOperation) : Prop :=
  BindRequest_AssemblySpec (m_bindRequest this) = spec
  ∧ (m_checkedIgnoreBind this = true → m_ignoreBind this = true).

(** What the last call of each setter in a run left in its member, the
    member holding [init] before the run. *)
Fixpoint last_assembly_name (cs : list Call) (init : ptr AssemblyName)
    : ptr AssemblyName :=
  match cs with
  | [] => init
  | CallSetAssemblyName n :: cs' => last_assembly_name cs' n
  | _ :: cs' => last_assembly_name cs' init
  end.

Fixpoint last_found_assembly (cs : list Call) (init : ptr Assembly)
    : ptr Assembly :=
  match cs with
  | [] => init
  | CallSetFoundAssembly a :: cs' => last_found_assembly cs' a
  | _ :: cs' => last_found_assembly cs' init
  end.

Fixpoint last_managed_alc (cs : list Call) (init : Z) : Z :=
  match cs with
  | [] => init
  | CallSetManagedALC h :: cs' => last_managed_alc cs' h
  | _ :: cs' => last_managed_alc cs' init
  end.

(** The two assertions of GoToStage, along a run of transitions that starts
    in stage [cur]. *)
Fixpoint passes_assertions (cur : Stage) (ss : list Stage) : bool :=
  match ss with
  | [] => true
  | s :: ss' =>
      bool_decide (cur ≠ s) && bool_decide (s ≠ NotYetStarted)
      && passes_assertions s ss'
  end.

(** The stage that is current immediately before each transition of a
    run that starts in stage [cur], in order. *)
Fixpoint stages_left (cur : Stage) (cs : list Call) : list Stage :=
  match cs with
  | [] => []
  | CallGoToStage s :: cs' => cur :: stages_left s cs'
  | _ :: cs' => stages_left cur cs'
  end.

End Vocabulary.

(** * A small process to run the code on *)
Module Sample.

(** An assembly name is its simple name; an assembly is its simple name
    with whether its version is acceptable; an AssemblySpec is its display
    name with whether binds of it are to be ignored. *)
Definition collaborators : Collaborators :=
  {| AssemblyName := string;
     Assembly := string * bool;
     AssemblySpec := string * bool;
     PEAssembly := string;
     SimpleNameEquals := λ sought found, bool_decide (sought = found.1);
     VersionCompatible := λ _ found, found.2;
     SpecDisplayName := fst;
     SpecRequestingAssembly := λ _, "App";
     SpecAssemblyLoadContext := λ _, "Default";
     SpecRequestingAssemblyLoadContext := λ _, "Default" |}.

#[local] Existing Instance collaborators.

(** The address of the HRESULT variable of the sample scope. *)
Definition slot : loc := 1%positive.

(** A process with tracing switched as said, the HRESULT variable holding
    E_FAIL, and nothing logged yet. *)
Definition process (enabled : bool) : World :=
  @Build_World collaborators
    enabled                 (* IsEnabled *)
    enabled                 (* EventEnabledResolutionAttempted *)
    snd                     (* ignored_bind *)
    {[ slot := E_FAIL ]}    (* hresults *)
    [].                     (* trace *)

(** The tracker the constructor yields in that process. *)
Definition tracker (enabled : bool) : ResolutionAttemptedOperation :=
  {| m_hr := slot;
     m_stage := NotYetStarted;
     m_pAssemblyName := nullptr;
     m_pFoundAssembly := nullptr;
     m_pManagedALC := 0;
     m_tracingEnabled := enabled |}.

(** A scope that looks in the load context, fails, asks the load context to
    load, and succeeds. *)
Definition resolved_on_second_stage : list Call :=
  [ @CallSetAssemblyName collaborators (Some "Foo");
    CallGoToStage FindInLoadContext;
    AssignHr E_FAIL;
    CallGoToStage AssemblyLoadContextLoad;
    @CallSetFoundAssembly collaborators (Some ("Foo", true));
    AssignHr S_OK ].

(** A scope that goes back to a stage it has left. *)
Definition back_and_forth : list Call :=
  CallGoToStage <$>
    [FindInLoadContext; AssemblyLoadContextLoad; FindInLoadContext].

(** A bind of the satellite assembly of the core library, which is to be
    ignored, and a bind of an application assembly, which is not. *)
Definition satellite_spec : @AssemblySpec collaborators :=
  ("System.Private.CoreLib.resources", true).
Definition foo_spec : @AssemblySpec collaborators := ("Foo", false).

(** The result of a bind. *)
Definition foo_dll : ptr (@PEAssembly collaborators) := Some "Foo.dll".

End Sample.

(** * Properties of the stage tracker *)
Section StageTracker.
Context `{Collaborators}.

Implicit Types (this : ResolutionAttemptedOperation) (w : World).
Implicit Types (stage : Stage) (cs : list Call) (hr : HRESULT).

Lemma emitted_since_app w t :
  emitted_since w (with_trace (trace w ++ t) w) = t.
Proof. unfold emitted_since; simpl. by rewrite drop_app_length. Qed.

Lemma emitted_since_refl w : emitted_since w w = [].
Proof. unfold emitted_since. apply drop_all. Qed.

Lemma with_trace_same w : with_trace (trace w) w = w.
Proof. by destruct w. Qed.

Lemma TraceStageEnd_sentinel this w :
  TraceStageEnd NotYetStarted this w = Returned tt w.
Proof. reflexivity. Qed.

Lemma TraceStageEnd_real resStage this w hr :
  resStage ≠ NotYetStarted →
  hresults w !! m_hr this = Some hr →
  TraceStageEnd resStage this w
  = Returned tt (with_trace (trace w ++ [stage_end_event resStage hr this]) w).
Proof.
  intros Hreal Hslot. unfold TraceStageEnd.
  destruct (decide (resStage = NotYetStarted)) as [->|_]; [done|].
  unfold bind, read_hr. by rewrite Hslot.
Qed.

(** Whatever the stage, a stage end with a live HRESULT returns, and adds the
    event of the stage when the stage is a real one. *)
Lemma TraceStageEnd_live resStage this w hr :
  hresults w !! m_hr this = Some hr →
  TraceStageEnd resStage this w
  = Returned tt
      (with_trace
         (trace w ++ ((λ s, stage_end_event s hr this) <$> real_stage resStage))
         w).
Proof.
  intros Hslot. unfold real_stage.
  destruct (decide (resStage = NotYetStarted)) as [->|Hreal]; simpl.
  - by rewrite app_nil_r, with_trace_same.
  - by apply TraceStageEnd_real.
Qed.

Lemma TraceStageEnd_never_asserts resStage this w :
  TraceStageEnd resStage this w ≠ AssertionFailed.
Proof.
  unfold TraceStageEnd, bind, read_hr, emit, ret.
  destruct (decide _); [done|]. by destruct (hresults w !! m_hr this).
Qed.

Lemma GoToStage_disabled stage this w :
  m_tracingEnabled this = false → GoToStage stage this w = Returned this w.
Proof. intros Hoff. unfold GoToStage. by rewrite Hoff. Qed.

Lemma GoToStage_enabled stage this w :
  m_tracingEnabled this = true →
  m_stage this ≠ stage → stage ≠ NotYetStarted →
  GoToStage stage this w
  = match TraceStageEnd (m_stage this) this w with
    | Returned _ w' => Returned (set_m_stage stage this) w'
    | AssertionFailed => AssertionFailed
    | InvalidReference => InvalidReference
    end.
Proof.
  intros Hon Hne Hreal. unfold GoToStage, bind, assert. rewrite Hon.
  by rewrite !bool_decide_true.
Qed.

Lemma GoToStage_rejects stage this w :
  m_tracingEnabled this = true →
  stage = m_stage this ∨ stage = NotYetStarted →
  GoToStage stage this w = AssertionFailed.
Proof.
  intros Hon Hbad. unfold GoToStage, bind, assert. rewrite Hon.
  case_bool_decide as Hne; [|done].
  case_bool_decide as Hreal; [|done].
  destruct Hbad; congruence.
Qed.

Lemma GoToStage_returns stage this w this' w' :
  m_tracingEnabled this = true →
  GoToStage stage this w = Returned this' w' →
  m_stage this ≠ stage ∧ stage ≠ NotYetStarted ∧ this' = set_m_stage stage this
  ∧ TraceStageEnd (m_stage this) this w = Returned tt w'.
Proof.
  intros Hon. unfold GoToStage, bind, assert, ret. rewrite Hon.
  case_bool_decide as Hne; [|done].
  case_bool_decide as Hreal; [|done].
  destruct (TraceStageEnd (m_stage this) this w) as [[] w1| |] eqn:Hend; [|done..].
  intros [= <- <-]. done.
Qed.

Lemma TraceStageEnd_returns resStage this w u w' :
  TraceStageEnd resStage this w = Returned u w' →
  ∃ hr, w' = with_trace
               (trace w ++ ((λ s, stage_end_event s hr this) <$> real_stage resStage))
               w.
Proof.
  unfold TraceStageEnd, real_stage, ret.
  destruct (decide (resStage = NotYetStarted)) as [->|Hreal]; simpl.
  - intros [= _ <-]. exists S_OK. by rewrite app_nil_r, with_trace_same.
  - unfold bind, read_hr, emit.
    destruct (hresults w !! m_hr this) as [hr|]; [|done].
    intros [= _ <-]. by exists hr.
Qed.

Lemma stage_ends_app (evs1 evs2 : list Event) :
  stage_ends (evs1 ++ evs2) = stage_ends evs1 ++ stage_ends evs2.
Proof.
  induction evs1 as [|e evs1 IH]; [done|].
  destruct e; simpl; by rewrite ?IH.
Qed.

Lemma stage_ends_of_stage_end hr this (ss : list Stage) :
  stage_ends ((λ s, stage_end_event s hr this) <$> ss) = ss.
Proof.
  induction ss as [|s ss IH]; [done|].
  rewrite fmap_cons. unfold stage_end_event at 1. simpl. by rewrite IH.
Qed.

(** The calls never touch the cached flag nor the reference. *)
Lemma perform_keeps c this w this' w' :
  perform c this w = Returned this' w' →
  m_tracingEnabled this' = m_tracingEnabled this ∧ m_hr this' = m_hr this.
Proof.
  destruct c; simpl; try (intros [= <- _]; done).
  unfold GoToStage, bind, assert, ret.
  destruct (m_tracingEnabled this) eqn:Hon; [|by intros [= <- _]].
  do 2 (case_bool_decide; [|done]).
  destruct (TraceStageEnd _ _ _); [|done..].
  by intros [= <- _].
Qed.

(** What a traced scope emits from some point of its run on: the end of the
    stage it is in, if it is a real one, then one end per stage entered. *)
Lemma run_stage_ends cs : ∀ this w w',
  m_tracingEnabled this = true →
  bind (perform_all cs this) ResolutionAttemptedOperation_dtor w = Returned tt w' →
  ∃ evs, trace w' = trace w ++ evs
         ∧ stage_ends evs = real_stage (m_stage this) ++ stages_entered cs
         ∧ length evs = length (stage_ends evs).
Proof.
  induction cs as [|c cs IH]; intros this w w' Hon.
  - unfold bind; simpl. unfold ResolutionAttemptedOperation_dtor. rewrite Hon.
    intros [hr ->]%TraceStageEnd_returns. eexists; split; [done|].
    rewrite (stage_ends_of_stage_end hr this), app_nil_r, length_fmap. done.
  - unfold bind in *; simpl. unfold bind.
    destruct (perform c this w) as [this1 w1| |] eqn:Hc; [|done..].
    intros Hrest.
    destruct (perform_keeps _ _ _ _ _ Hc) as [Hon1 _]. rewrite Hon in Hon1.
    destruct (IH this1 w1 w' Hon1 Hrest) as (evs & Htr & Hends & Hlen).
    destruct c; simpl in Hc;
      try (injection Hc as <- <-; exists evs; done).
    destruct (GoToStage_returns _ _ _ _ _ Hon Hc) as (Hne & Hreal & -> & Hend).
    apply TraceStageEnd_returns in Hend as [hr ->]. simpl in *.
    eexists (_ ++ evs). split; [by rewrite Htr, app_assoc|].
    rewrite stage_ends_app, (stage_ends_of_stage_end hr this), !length_app.
    rewrite Hlen, Hends, length_fmap.
    assert (real_stage stage = [stage]) as ->; [|done].
    unfold real_stage. by rewrite decide_False.
Qed.

Lemma remove_dups_NoDup (ss : list Stage) : NoDup ss → remove_dups ss = ss.
Proof.
  induction 1 as [|s ss Hnotin _ IH]; simpl; [done|].
  destruct (decide_rel elem_of s ss); [done|]. by rewrite IH.
Qed.

(** Every accepted transition leaves the stage it starts from, for a real
    stage. *)
Lemma accepted_run cs : ∀ this w this' w',
  m_tracingEnabled this = true →
  perform_all cs this w = Returned this' w' →
  no_adjacent_repeat (m_stage this :: stages_entered cs)
  ∧ Forall (λ s, s ≠ NotYetStarted) (stages_entered cs)
  ∧ m_stage this' = default (m_stage this) (last (stages_entered cs)).
Proof.
  induction cs as [|c cs IH]; intros this w this' w' Hon; simpl.
  - by intros [= <- _].
  - unfold bind.
    destruct (perform c this w) as [this1 w1| |] eqn:Hc; [|done..].
    intros Hrest.
    destruct (perform_keeps _ _ _ _ _ Hc) as [Hon1 _]. rewrite Hon in Hon1.
    specialize (IH this1 w1 this' w' Hon1 Hrest).
    destruct c; simpl in Hc; try (injection Hc as <- <-; exact IH).
    destruct (GoToStage_returns _ _ _ _ _ Hon Hc) as (Hne & Hreal & -> & _).
    simpl in IH. destruct IH as (Hadj & Hall & Hlast).
    repeat split; [done|done|by constructor|].
    rewrite last_cons, Hlast. by destruct (last (stages_entered cs)).
Qed.

Lemma strictly_ascending_above prev (ss : list Stage) :
  strictly_ascending prev ss = true → Forall (λ s, prev < stage_rank s) ss.
Proof.
  revert prev. induction ss as [|s ss IH]; intros prev; simpl; [done|].
  intros [Hlt%bool_decide_eq_true Hrest]%andb_true_iff.
  constructor; [done|].
  eapply Forall_impl; [by apply IH|]. simpl; lia.
Qed.

Lemma strictly_ascending_NoDup prev (ss : list Stage) :
  strictly_ascending prev ss = true → NoDup ss.
Proof.
  revert prev. induction ss as [|s ss IH]; intros prev; simpl; [constructor|].
  intros [_ Hrest]%andb_true_iff. constructor; [|by eapply IH].
  intros Hin. apply strictly_ascending_above in Hrest.
  rewrite Forall_forall in Hrest. specialize (Hrest s Hin). lia.
Qed.

(** Any run of transitions that climbs the enumeration is accepted. *)
Lemma ascending_accepted (ss : list Stage) : ∀ this w hr,
  m_tracingEnabled this = true →
  hresults w !! m_hr this = Some hr →
  strictly_ascending (stage_rank (m_stage this)) ss = true →
  ∃ this' w', perform_all (CallGoToStage <$> ss) this w = Returned this' w'.
Proof.
  induction ss as [|s ss IH]; intros this w hr Hon Hslot; simpl.
  - intros _. by eexists _, _.
  - intros [Hlt%bool_decide_eq_true Hrest]%andb_true_iff.
    assert (m_stage this ≠ s) as Hne by (intros <-; lia).
    assert (s ≠ NotYetStarted) as Hreal.
    { intros ->. unfold stage_rank in Hlt.
      destruct (decide (m_stage this = NotYetStarted)); simpl in Hlt; [lia|].
      destruct (m_stage this); simpl in Hlt; done || lia. }
    unfold bind. rewrite GoToStage_enabled by done.
    rewrite (TraceStageEnd_live _ _ _ hr) by done.
    eapply (IH (set_m_stage s this)); [done|exact Hslot|done].
Qed.

Lemma perform_disabled c this w :
  m_tracingEnabled this = false →
  ∃ this' w', perform c this w = Returned this' w'
              ∧ m_tracingEnabled this' = false
              ∧ m_stage this' = m_stage this
              ∧ trace w' = trace w.
Proof.
  intros Hoff.
  destruct c; simpl; unfold ret; rewrite ?GoToStage_disabled by done;
    by eexists _, _.
Qed.

(** A tracker whose cached flag is off goes through any calls without a
    fault, without an event and without leaving its stage. *)
Lemma perform_all_disabled cs : ∀ this w,
  m_tracingEnabled this = false →
  ∃ this' w', perform_all cs this w = Returned this' w'
              ∧ m_tracingEnabled this' = false
              ∧ m_stage this' = m_stage this
              ∧ trace w' = trace w.
Proof.
  induction cs as [|c cs IH]; intros this w Hoff; simpl.
  - by eexists _, _.
  - unfold bind.
    destruct (perform_disabled c this w Hoff) as (this1 & w1 & -> & Hoff1 & <- & <-).
    by apply IH.
Qed.

Lemma dtor_disabled this w :
  m_tracingEnabled this = false →
  ResolutionAttemptedOperation_dtor this w = Returned tt w.
Proof. intros Hoff. unfold ResolutionAttemptedOperation_dtor. by rewrite Hoff. Qed.

(** Where the stage of a traced tracker stands after a run. *)
Lemma entered_iff_left_sentinel cs this w this' w' :
  m_tracingEnabled this = true →
  m_stage this = NotYetStarted →
  perform_all cs this w = Returned this' w' →
  m_stage this' ≠ NotYetStarted ↔ stages_entered cs ≠ [].
Proof.
  intros Hon Hfresh Hrun.
  destruct (accepted_run _ _ _ _ _ Hon Hrun) as (_ & Hall & Hlast).
  rewrite Hlast, Hfresh.
  destruct (stages_entered cs) as [|s ss] eqn:Hss using rev_ind; [done|].
  rewrite last_snoc; simpl. apply Forall_app in Hall as [_ Hs].
  rewrite Forall_singleton in Hs.
  split; intros _; [|exact Hs]. by intros [_ ?]%app_nil.
Qed.

Lemma perform_all_keeps cs : ∀ this w this' w',
  perform_all cs this w = Returned this' w' →
  m_tracingEnabled this' = m_tracingEnabled this ∧ m_hr this' = m_hr this.
Proof.
  induction cs as [|c cs IH]; intros this w this' w'; simpl.
  - by intros [= <- _].
  - unfold bind. destruct (perform c this w) as [this1 w1| |] eqn:Hc; [|done..].
    intros [-> ->]%IH. by apply perform_keeps in Hc.
Qed.

(** ** The claims about the stage tracker *)

(** What the transitions of a traced run emit, without the destruction: one
    stage end for each transition that leaves a real stage, for the stage it
    leaves. *)
Lemma calls_stage_ends cs : ∀ this w this1 w1,
  m_tracingEnabled this = true →
  perform_all cs this w = Returned this1 w1 →
  ∃ evs, trace w1 = trace w ++ evs
         ∧ stage_ends evs
           = filter (λ s, s ≠ NotYetStarted) (stages_left (m_stage this) cs)
         ∧ length evs = length (stage_ends evs).
Proof.
  induction cs as [|c cs IH]; intros this w this1 w1 Hon; simpl.
  - intros [= _ <-]. exists []. by rewrite app_nil_r.
  - unfold bind.
    destruct (perform c this w) as [this0 w0| |] eqn:Hc; [|done..].
    intros Hrest.
    destruct (perform_keeps _ _ _ _ _ Hc) as [Hon0 _]. rewrite Hon in Hon0.
    destruct (IH this0 w0 this1 w1 Hon0 Hrest) as (evs & Htr & Hends & Hlen).
    destruct c; simpl in Hc;
      try (injection Hc as <- <-; exists evs; done).
    destruct (GoToStage_returns _ _ _ _ _ Hon Hc) as (Hne & Hreal & -> & Hend).
    apply TraceStageEnd_returns in Hend as [hr ->]. simpl in *.
    eexists (_ ++ evs). split; [by rewrite Htr, app_assoc|].
    rewrite stage_ends_app, (stage_ends_of_stage_end hr this), !length_app.
    rewrite Hlen, Hends, length_fmap, filter_cons. unfold real_stage.
    by destruct (decide (m_stage this = NotYetStarted));
      [rewrite decide_False by auto|rewrite decide_True by done].
Qed.

Lemma remove_dups_length_le (ss : list Stage) :
  (length (remove_dups ss) ≤ length ss)%nat.
Proof.
  induction ss as [|s ss IH]; simpl; [done|].
  destruct (decide_rel elem_of s ss); simpl; lia.
Qed.

Lemma remove_dups_length_NoDup (ss : list Stage) :
  length (remove_dups ss) = length ss ↔ NoDup ss.
Proof.
  split; [|by intros ->%remove_dups_NoDup].
  induction ss as [|s ss IH]; simpl; [constructor|].
  pose proof (remove_dups_length_le ss).
  destruct (decide_rel elem_of s ss); simpl; [lia|].
  intros [= Hlen]. constructor; [done|by apply IH].
Qed.

(** What a whole scope emits, from construction to destruction. *)
Lemma lifetime_stage_ends (slot : loc) cs w w' :
  EventEnabledResolutionAttempted w = true →
  lifetime slot cs w = Returned tt w' →
  trace w' = trace w ++ emitted_since w w'
  ∧ stage_ends (emitted_since w w') = stages_entered cs
  ∧ length (emitted_since w w') = length (stages_entered cs).
Proof.
  intros Hon Hlife. unfold lifetime in Hlife.
  unfold bind at 1, ResolutionAttemptedOperation_ctor in Hlife.
  apply run_stage_ends in Hlife as (evs & Htr & Hends & Hlen); [|done].
  simpl in Hends.
  assert (emitted_since w w' = evs) as ->.
  { unfold emitted_since. by rewrite Htr, drop_app_length. }
  split_and!; [done|done|by rewrite Hlen, Hends].
Qed.

(** C1 (amended).  For a traced tracker in any stage, over any run of calls
    that returns, followed by destruction:
    - each transition emits one stage-end event whose identifier is the
      stage that was current immediately before it, except a transition
      that leaves the sentinel, which emits nothing; the calls emit nothing
      else;
    - destruction emits one stage-end event for the stage then current,
      which is the last stage entered, and nothing if that is still the
      sentinel;
    - so, over the whole scope, the stage-end events are the one of the
      starting stage, if it is a real one, followed by one for each stage
      entered, in order;
    - for a tracker that starts in the sentinel, as the constructor leaves
      it, their number is the number of GoToStage calls, and it is the
      number of distinct stages entered exactly when no stage is entered
      twice. *)
Theorem stage_end_per_stage_entered cs this w this1 w1 w' :
  m_tracingEnabled this = true →
  perform_all cs this w = Returned this1 w1 →
  ResolutionAttemptedOperation_dtor this1 w1 = Returned tt w' →
  trace w1 = trace w ++ emitted_since w w1
  ∧ length (stage_ends (emitted_since w w1)) = length (emitted_since w w1)
  ∧ stage_ends (emitted_since w w1)
    = filter (λ s, s ≠ NotYetStarted) (stages_left (m_stage this) cs)
  ∧ trace w' = trace w1 ++ emitted_since w1 w'
  ∧ length (stage_ends (emitted_since w1 w')) = length (emitted_since w1 w')
  ∧ stage_ends (emitted_since w1 w') = real_stage (m_stage this1)
  ∧ m_stage this1 = default (m_stage this) (last (stages_entered cs))
  ∧ stage_ends (emitted_since w w')
    = real_stage (m_stage this) ++ stages_entered cs
  ∧ length (emitted_since w w')
    = (length (real_stage (m_stage this)) + length (stages_entered cs))%nat
  ∧ (m_stage this = NotYetStarted →
     stage_ends (emitted_since w w') = stages_entered cs
     ∧ length (emitted_since w w') = length (stages_entered cs)
     ∧ (length (emitted_since w w') = length (remove_dups (stages_entered cs))
        ↔ NoDup (stages_entered cs))).
Proof.
  intros Hon Hrun Hdtor.
  destruct (calls_stage_ends cs this w this1 w1 Hon Hrun)
    as (evs & Htr & Hends & Hlen).
  destruct (perform_all_keeps _ _ _ _ _ Hrun) as [Hon1 _]. rewrite Hon in Hon1.
  destruct (accepted_run _ _ _ _ _ Hon Hrun) as (_ & _ & Hlast).
  destruct (run_stage_ends cs this w w' Hon) as (all & Hall & Hallends & Halllen).
  { unfold bind. by rewrite Hrun. }
  unfold ResolutionAttemptedOperation_dtor in Hdtor. rewrite Hon1 in Hdtor.
  apply TraceStageEnd_returns in Hdtor as [hr Hw'].
  assert (emitted_since w w1 = evs) as Hcalls.
  { unfold emitted_since. by rewrite Htr, drop_app_length. }
  assert (emitted_since w w' = all) as Hwhole.
  { unfold emitted_since. by rewrite Hall, drop_app_length. }
  rewrite Hcalls, Hwhole. subst w'. rewrite emitted_since_app. simpl.
  rewrite length_fmap, (stage_ends_of_stage_end hr this1).
  split_and!; try done.
  - by rewrite Hallends, length_app in Halllen.
  - intros Hfresh. rewrite Hfresh in Hallends. simpl in Hallends.
    rewrite Halllen, Hallends. split_and!; [done..|].
    rewrite <- remove_dups_length_NoDup. split; congruence.
Qed.

(** C2 (amended).  A GoToStage(next) call on a traced tracker, with [next]
    neither the current stage nor the sentinel: if the current stage is a
    real one, exactly one stage-end event is emitted, for that stage,
    classified from the value the shared HRESULT holds at the moment of the
    call (after the enclosing scope assigns it, the new value is the one
    used); if the current stage is the sentinel, nothing is emitted.  In
    both cases the current stage is [next] afterwards. *)
Theorem GoToStage_ends_current_stage stage this w hr :
  m_tracingEnabled this = true →
  m_stage this ≠ stage →
  stage ≠ NotYetStarted →
  hresults w !! m_hr this = Some hr →
  ∃ w', GoToStage stage this w = Returned (set_m_stage stage this) w'
        ∧ m_stage (set_m_stage stage this) = stage
        ∧ trace w' = trace w ++ emitted_since w w'
        ∧ emitted_since w w'
          = (if decide (m_stage this = NotYetStarted) then []
             else [ResolutionAttempted (m_stage this)
                     (GetResult hr (m_pAssemblyName this) (m_pFoundAssembly this))
                     (m_pAssemblyName this) (m_pFoundAssembly this)
                     (m_pManagedALC this)])
        ∧ ∀ hr', ∃ w1 w2,
            perform (AssignHr hr') this w = Returned this w1
            ∧ GoToStage stage this w1 = Returned (set_m_stage stage this) w2
            ∧ emitted_since w1 w2
              = (if decide (m_stage this = NotYetStarted) then []
                 else [ResolutionAttempted (m_stage this)
                         (GetResult hr' (m_pAssemblyName this) (m_pFoundAssembly this))
                         (m_pAssemblyName this) (m_pFoundAssembly this)
                         (m_pManagedALC this)]).
Proof.
  intros Hon Hne Hreal Hslot.
  assert (∀ w0 hr0, hresults w0 !! m_hr this = Some hr0 →
            ∃ w', GoToStage stage this w0 = Returned (set_m_stage stage this) w'
                  ∧ trace w' = trace w0 ++ emitted_since w0 w'
                  ∧ emitted_since w0 w'
                    = (if decide (m_stage this = NotYetStarted) then []
                       else [stage_end_event (m_stage this) hr0 this])) as Hcall.
  { intros w0 hr0 Hslot0. rewrite GoToStage_enabled by done.
    rewrite (TraceStageEnd_live _ _ _ hr0) by done.
    eexists; split; [done|]. rewrite emitted_since_app. simpl.
    unfold real_stage. by destruct (decide (m_stage this = NotYetStarted)). }
  destruct (Hcall w hr Hslot) as (w' & Hgo & Htr & Hev).
  exists w'. split_and!; [done..|].
  intros hr'. simpl.
  edestruct (Hcall (with_hresults (<[m_hr this:=hr']> (hresults w)) w) hr')
    as (w2 & Hgo2 & _ & Hev2); [by simpl; rewrite lookup_insert_eq|].
  by eexists _, w2.
Qed.

(** C3.  Right after construction the current stage is the sentinel, and the
    cached flag is what the event query answered then.  At destruction, one
    final stage-end event, for the current stage, is emitted if and only if
    tracing was enabled at construction and the current stage is not the
    sentinel; otherwise nothing is emitted.  The current stage is not the
    sentinel exactly when tracing was enabled and some stage was entered. *)
Theorem final_stage_end_iff_stage_entered (slot : loc) cs w0 this0 w1 this w hr :
  ResolutionAttemptedOperation_ctor slot w0 = Returned this0 w1 →
  perform_all cs this0 w1 = Returned this w →
  hresults w !! slot = Some hr →
  w1 = w0
  ∧ m_stage this0 = NotYetStarted
  ∧ m_tracingEnabled this = EventEnabledResolutionAttempted w0
  ∧ (m_stage this ≠ NotYetStarted
     ↔ EventEnabledResolutionAttempted w0 = true ∧ stages_entered cs ≠ [])
  ∧ ∃ w', ResolutionAttemptedOperation_dtor this w = Returned tt w'
          ∧ trace w' = trace w ++ emitted_since w w'
          ∧ (emitted_since w w'
               = [ResolutionAttempted (m_stage this)
                    (GetResult hr (m_pAssemblyName this) (m_pFoundAssembly this))
                    (m_pAssemblyName this) (m_pFoundAssembly this)
                    (m_pManagedALC this)]
             ↔ EventEnabledResolutionAttempted w0 = true
               ∧ m_stage this ≠ NotYetStarted)
          ∧ (¬ (EventEnabledResolutionAttempted w0 = true
                ∧ m_stage this ≠ NotYetStarted)
             → emitted_since w w' = []).
Proof.
  unfold ResolutionAttemptedOperation_ctor. intros [= <- <-] Hrun Hslot.
  set (this0 := {| m_hr := slot |}) in *.
  assert (m_tracingEnabled this = EventEnabledResolutionAttempted w0
          ∧ m_hr this = slot) as [Hflag Href].
  { by apply perform_all_keeps in Hrun. }
  split_and!; [done|done|done| |].
  - destruct (EventEnabledResolutionAttempted w0) eqn:Hon.
    + rewrite (entered_iff_left_sentinel cs this0 w0 this w eq_refl eq_refl Hrun).
      tauto.
    + destruct (perform_all_disabled cs this0 w0 eq_refl)
        as (t & w2 & Hrun' & _ & Hst & _).
      rewrite Hrun in Hrun'. injection Hrun' as <- <-. simpl in Hst.
      split; [done|]. by intros [? _].
  - unfold ResolutionAttemptedOperation_dtor. rewrite Hflag.
    destruct (EventEnabledResolutionAttempted w0).
    + rewrite (TraceStageEnd_live _ _ _ hr) by by rewrite Href.
      eexists; split; [done|]. rewrite emitted_since_app. simpl.
      split; [done|]. unfold real_stage.
      destruct (decide (m_stage this = NotYetStarted)); simpl;
        unfold stage_end_event; intuition congruence.
    + exists w. rewrite emitted_since_refl, app_nil_r.
      split_and!; [done|done| |done]. split; [done|]. by intros [? _].
Qed.

(** C4.  The classification of a stage end depends on nothing but the
    HRESULT read and the sought and found identities the tracker holds: a
    successful HRESULT gives Success; a failure with no found assembly gives
    AssemblyNotFound; with a found assembly whose simple name differs from
    the sought one, MismatchedAssemblyName; with a found assembly of the
    sought name that fails the version check, IncompatbileVersion; any
    other failure gives Failure. *)
Theorem stage_end_classification resStage this w hr :
  resStage ≠ NotYetStarted →
  hresults w !! m_hr this = Some hr →
  ∃ r, TraceStageEnd resStage this w
       = Returned tt
           (with_trace
              (trace w ++ [ResolutionAttempted resStage r
                             (m_pAssemblyName this) (m_pFoundAssembly this)
                             (m_pManagedALC this)]) w)
       ∧ r = GetResult hr (m_pAssemblyName this) (m_pFoundAssembly this)
       ∧ (SUCCEEDED hr = true → r = Success)
       ∧ (SUCCEEDED hr = false → m_pFoundAssembly this = None →
          r = AssemblyNotFound)
       ∧ (∀ sought found,
            SUCCEEDED hr = false →
            m_pAssemblyName this = Some sought →
            m_pFoundAssembly this = Some found →
            SimpleNameEquals sought found = false →
            r = MismatchedAssemblyName)
       ∧ (∀ sought found,
            SUCCEEDED hr = false →
            m_pAssemblyName this = Some sought →
            m_pFoundAssembly this = Some found →
            SimpleNameEquals sought found = true →
            VersionCompatible sought found = false →
            r = IncompatbileVersion)
       ∧ (∀ found,
            SUCCEEDED hr = false →
            m_pFoundAssembly this = Some found →
            (m_pAssemblyName this = None
             ∨ ∃ sought, m_pAssemblyName this = Some sought
                         ∧ SimpleNameEquals sought found = true
                         ∧ VersionCompatible sought found = true) →
            r = Failure).
Proof.
  intros Hreal Hslot. eexists. split; [by apply TraceStageEnd_real|].
  split; [done|]. unfold GetResult.
  split_and!.
  - by intros ->.
  - by intros -> ->.
  - by intros sought found -> -> -> ->.
  - by intros sought found -> -> -> -> ->.
  - intros found -> -> [->|(sought & -> & -> & ->)]; done.
Qed.

(** C5 (amended).  A tracker built while the event is not enabled caches a
    false flag, and then, whatever calls are made on it: GoToStage returns
    with the tracker and the process unchanged, the stage stays the
    sentinel, and no event is emitted up to and including destruction.  The
    three setters are not guarded by the flag: each stores its argument in
    its own member. *)
Theorem disabled_tracker_emits_nothing (slot : loc) cs w :
  EventEnabledResolutionAttempted w = false →
  ∃ this0 this' w',
    ResolutionAttemptedOperation_ctor slot w = Returned this0 w
    ∧ m_tracingEnabled this0 = false
    ∧ perform_all cs this0 w = Returned this' w'
    ∧ m_tracingEnabled this' = false
    ∧ m_stage this' = NotYetStarted
    ∧ trace w' = trace w
    ∧ (∀ stage w1, GoToStage stage this' w1 = Returned this' w1)
    ∧ lifetime slot cs w = Returned tt w'
    ∧ (∀ n, m_pAssemblyName (SetAssemblyName n this') = n)
    ∧ (∀ h, m_pManagedALC (SetManagedALC h this') = h)
    ∧ (∀ a, m_pFoundAssembly (SetFoundAssembly a this') = a).
Proof.
  intros Hoff. unfold lifetime, bind, ResolutionAttemptedOperation_ctor.
  rewrite Hoff.
  set (this0 := {| m_hr := slot |}).
  destruct (perform_all_disabled cs this0 w eq_refl)
    as (this' & w' & Hrun & Hoff' & Hst & Htr).
  exists this0, this', w'. rewrite Hrun.
  split_and!; try done.
  - intros stage w1. by apply GoToStage_disabled.
  - by apply dtor_disabled.
Qed.

(** C7 (amended).  GoToStage trips an assertion exactly when the cached flag
    is on and the stage asked for is the current stage or the sentinel: on
    a traced tracker either misuse is an assertion failure, not an outcome
    the caller gets back, and a stage that differs from the current one and
    is not the sentinel never fails an assertion; on a tracker whose flag is
    off no assertion is evaluated. *)
Theorem GoToStage_assertion_fails_iff stage this w :
  GoToStage stage this w = AssertionFailed
  ↔ m_tracingEnabled this = true
    ∧ (stage = m_stage this ∨ stage = NotYetStarted).
Proof.
  split.
  - destruct (m_tracingEnabled this) eqn:Hon.
    + destruct (decide (m_stage this = stage)) as [<-|Hne]; [by intros; auto|].
      destruct (decide (stage = NotYetStarted)) as [->|Hreal]; [by intros; auto|].
      rewrite GoToStage_enabled by done.
      pose proof (TraceStageEnd_never_asserts (m_stage this) this w).
      by destruct (TraceStageEnd (m_stage this) this w).
    + by rewrite GoToStage_disabled.
  - intros [Hon Hbad]. by apply GoToStage_rejects.
Qed.

(** C8 (amended).  On a traced tracker, every accepted GoToStage call moves
    the current stage to a real stage different from the one it leaves, and
    the current stage ends as the last stage asked for.  The order of the
    enumeration is not enforced: every run of calls that climbs the
    enumeration, skipping stages or not, is accepted and visits no stage
    twice, but a call to an earlier stage is accepted as well. *)
Theorem accepted_transitions_change_stage this w :
  m_tracingEnabled this = true →
  (∀ cs this' w',
     perform_all cs this w = Returned this' w' →
     no_adjacent_repeat (m_stage this :: stages_entered cs)
     ∧ Forall (λ s, s ≠ NotYetStarted) (stages_entered cs)
     ∧ m_stage this' = default (m_stage this) (last (stages_entered cs)))
  ∧ (∀ ss hr,
       hresults w !! m_hr this = Some hr →
       strictly_ascending (stage_rank (m_stage this)) ss = true →
       NoDup ss
       ∧ ∃ this' w',
           perform_all (CallGoToStage <$> ss) this w = Returned this' w').
Proof.
  intros Hon. split.
  - intros cs this' w'. by apply accepted_run.
  - intros ss hr Hslot Hasc. split.
    + by eapply strictly_ascending_NoDup.
    + by eapply ascending_accepted.
Qed.

(** C10.  When the cached flag is off, GoToStage checks nothing: called with
    the current stage, with the sentinel, or with any stage at all, it
    returns and leaves the tracker and the process as they were. *)
Theorem GoToStage_unchecked_when_disabled this w :
  m_tracingEnabled this = false →
  GoToStage (m_stage this) this w = Returned this w
  ∧ GoToStage NotYetStarted this w = Returned this w
  ∧ ∀ stage, GoToStage stage this w = Returned this w.
Proof.
  intros Hoff. split_and!; intros; by apply GoToStage_disabled.
Qed.

End StageTracker.

(** * Properties of the bind tracer and of the path probe *)
Section BindTracer.
Context `{Collaborators}.

Implicit Types (this : AssemblyBindOperation) (w : World).
Implicit Types (cs : list BindCall) (spec : AssemblySpec).

Lemma ShouldIgnoreBind_cached this w :
  m_checkedIgnoreBind this = true →
  ShouldIgnoreBind this w = Returned (m_ignoreBind this, this) w.
Proof. intros Hchk. unfold ShouldIgnoreBind. by rewrite Hchk. Qed.

Lemma ShouldIgnoreBind_first this w :
  m_checkedIgnoreBind this = false →
  ∃ this',
    ShouldIgnoreBind this w
    = Returned
        (ignored_bind w (BindRequest_AssemblySpec (m_bindRequest this)), this') w
    ∧ m_checkedIgnoreBind this' = true
    ∧ m_ignoreBind this'
      = ignored_bind w (BindRequest_AssemblySpec (m_bindRequest this))
    ∧ m_bindRequest this' = m_bindRequest this.
Proof. intros Hchk. unfold ShouldIgnoreBind. rewrite Hchk. by eexists. Qed.

Lemma ShouldIgnoreBind_suppressed spec this w :
  suppressed spec this →
  ignored_bind w spec = true →
  ∃ this', ShouldIgnoreBind this w = Returned (true, this') w
           ∧ suppressed spec this'.
Proof.
  intros [Hspec Hkept] Hign.
  destruct (m_checkedIgnoreBind this) eqn:Hchk.
  - exists this. rewrite ShouldIgnoreBind_cached by done.
    rewrite (Hkept eq_refl). split; [done|]. split; [done|].
    by intros _; apply Hkept.
  - destruct (ShouldIgnoreBind_first this w Hchk) as (this' & -> & ? & Hb & Hreq).
    rewrite Hspec, Hign in *. exists this'. split; [done|].
    split; [by rewrite Hreq|by intros _].
Qed.

Lemma ctor_suppressed spec path w :
  ignored_bind w spec = true →
  ∃ this, AssemblyBindOperation_ctor spec path w = Returned this w
          ∧ suppressed spec this.
Proof.
  intros Hign. unfold AssemblyBindOperation_ctor.
  destruct (IsEnabled w); simpl.
  - unfold bind.
    edestruct (ShouldIgnoreBind_suppressed spec) as (this' & -> & Hsup);
      [|done|by exists this'].
    by split.
  - eexists; split; [done|]. by split.
Qed.

Lemma bind_perform_all_suppressed spec cs : ∀ this w,
  suppressed spec this →
  ∃ this' w', bind_perform_all cs this w = Returned this' w'
              ∧ suppressed spec this'
              ∧ trace w' = trace w
              ∧ ignored_bind w' = ignored_bind w.
Proof.
  induction cs as [|c cs IH]; intros this w Hsup; simpl.
  - by eexists _, _.
  - unfold bind. destruct c as [assembly cached|enabled]; simpl; unfold ret.
    + by apply IH.
    + destruct (IH this (with_flags enabled (EventEnabledResolutionAttempted w) w) Hsup)
        as (this' & w' & -> & ? & ? & ?).
      by eexists _, _.
Qed.

Lemma dtor_suppressed spec this w :
  suppressed spec this →
  ignored_bind w spec = true →
  AssemblyBindOperation_dtor this w = Returned tt w.
Proof.
  intros Hsup Hign. unfold AssemblyBindOperation_dtor.
  destruct (IsEnabled w); simpl; [|done].
  unfold bind.
  by destruct (ShouldIgnoreBind_suppressed spec this w Hsup Hign) as (this' & -> & _).
Qed.

(** C6.  A bind whose suppression test answers true emits no start and no
    stop event from construction to destruction, whatever results are set
    and whether or not tracing is enabled along the way.  The test is not
    run by a construction made while tracing is disabled; once run, its
    answer is kept in the tracer and every later ShouldIgnoreBind gives it
    back without running the test again. *)
Theorem ignored_bind_emits_nothing spec (path : ptr string) cs w :
  ignored_bind w spec = true →
  (∃ w', bind_lifetime spec path cs w = Returned tt w' ∧ trace w' = trace w)
  ∧ (IsEnabled w = false →
     ∃ this, AssemblyBindOperation_ctor spec path w = Returned this w
             ∧ m_checkedIgnoreBind this = false)
  ∧ (∀ this w1 b this' w2,
       ShouldIgnoreBind this w1 = Returned (b, this') w2 →
       w2 = w1
       ∧ m_checkedIgnoreBind this' = true
       ∧ m_ignoreBind this' = b
       ∧ ∀ w3, ShouldIgnoreBind this' w3 = Returned (b, this') w3).
Proof.
  intros Hign. split_and!.
  - unfold bind_lifetime, bind.
    destruct (ctor_suppressed spec path w Hign) as (this & -> & Hsup).
    destruct (bind_perform_all_suppressed spec cs this w Hsup)
      as (this' & w' & -> & Hsup' & Htr & Hsame).
    exists w'. split; [|done]. apply (dtor_suppressed spec); [done|].
    by rewrite Hsame.
  - intros Hoff. unfold AssemblyBindOperation_ctor. rewrite Hoff. by eexists.
  - intros this w1 b this' w2 Hcall.
    destruct (m_checkedIgnoreBind this) eqn:Hchk.
    + rewrite ShouldIgnoreBind_cached in Hcall by done.
      injection Hcall as <- <- <-. split_and!; [done..|].
      intros w3. by apply ShouldIgnoreBind_cached.
    + destruct (ShouldIgnoreBind_first this w1 Hchk) as (t & Hfirst & Hchk' & Hb & _).
      rewrite Hfirst in Hcall. injection Hcall as <- <- <-.
      split_and!; [done..|].
      intros w3. rewrite ShouldIgnoreBind_cached by done. by rewrite Hb.
Qed.

(** C9.  Every call of PathProbed returns; when tracing is enabled it emits
    exactly one path-probed event, carrying the path, the source and the
    HRESULT it was given, and when tracing is disabled it leaves the
    process as it was.  It changes nothing but the log, and what it emits
    is the same whatever else the process holds or has logged. *)
Theorem PathProbed_emits_one_event (path : string) (source : PathSource)
    (hr : HRESULT) w :
  ∃ w', PathProbed path source hr w = Returned tt w'
        ∧ trace w' = trace w ++ emitted_since w w'
        ∧ emitted_since w w'
          = (if IsEnabled w then [KnownPathProbed path source hr] else [])
        ∧ (IsEnabled w = false → w' = w)
        ∧ with_trace (trace w) w' = w
        ∧ ∀ v, IsEnabled v = IsEnabled w →
               ∃ v', PathProbed path source hr v = Returned tt v'
                     ∧ emitted_since v v' = emitted_since w w'.
Proof.
  unfold PathProbed, emit. destruct (IsEnabled w) eqn:Hen.
  - eexists; split; [done|]. unfold emitted_since at 1 2 3; simpl.
    rewrite drop_app_length. split_and!; [done|done|done|by destruct w|].
    intros v ->. eexists; split; [done|].
    unfold emitted_since; simpl. by rewrite !drop_app_length.
  - exists w. unfold emitted_since at 1 2. rewrite drop_all, app_nil_r.
    split_and!; [done|done|done|done|by destruct w|].
    intros v ->. exists v. split; [done|]. by rewrite !emitted_since_refl.
Qed.

End BindTracer.

(** * Further properties of the stage tracker *)
Section StageTrackerMore.
Context `{Collaborators}.

Implicit Types (this : ResolutionAttemptedOperation) (w : World).
Implicit Types (stage : Stage) (cs : list Call) (hr : HRESULT).

Lemma GoToStage_keeps_context stage this w this' w' :
  GoToStage stage this w = Returned this' w' →
  m_pAssemblyName this' = m_pAssemblyName this
  ∧ m_pFoundAssembly this' = m_pFoundAssembly this
  ∧ m_pManagedALC this' = m_pManagedALC this.
Proof.
  destruct (m_tracingEnabled this) eqn:Hon.
  - intros (_ & _ & -> & _)%GoToStage_returns; done.
  - rewrite GoToStage_disabled by done. by intros [= <- _].
Qed.

(** X1.  The three setters commute with one another, a second call of a
    setter replaces what the first stored, and none of them touches the
    stage, the cached flag or the HRESULT reference. *)
Theorem setters_commute_and_overwrite this
    (n n' : ptr AssemblyName) (a a' : ptr Assembly) (h h' : Z) :
  SetAssemblyName n (SetFoundAssembly a this)
  = SetFoundAssembly a (SetAssemblyName n this)
  ∧ SetAssemblyName n (SetManagedALC h this)
    = SetManagedALC h (SetAssemblyName n this)
  ∧ SetFoundAssembly a (SetManagedALC h this)
    = SetManagedALC h (SetFoundAssembly a this)
  ∧ SetAssemblyName n' (SetAssemblyName n this) = SetAssemblyName n' this
  ∧ SetFoundAssembly a' (SetFoundAssembly a this) = SetFoundAssembly a' this
  ∧ SetManagedALC h' (SetManagedALC h this) = SetManagedALC h' this
  ∧ m_stage (SetAssemblyName n (SetFoundAssembly a (SetManagedALC h this)))
    = m_stage this
  ∧ m_tracingEnabled (SetAssemblyName n (SetFoundAssembly a (SetManagedALC h this)))
    = m_tracingEnabled this
  ∧ m_hr (SetAssemblyName n (SetFoundAssembly a (SetManagedALC h this)))
    = m_hr this.
Proof. by destruct this. Qed.

(** X2.  After any run of calls that returns, each of the three context
    members holds the argument of the last call of its setter, or what it
    held before the run if its setter was not called: transitions,
    assignments of the HRESULT and switches of the event never reset the
    context, whether the tracker is traced or not. *)
Theorem context_is_last_set cs : ∀ this w this' w',
  perform_all cs this w = Returned this' w' →
  m_pAssemblyName this' = last_assembly_name cs (m_pAssemblyName this)
  ∧ m_pFoundAssembly this' = last_found_assembly cs (m_pFoundAssembly this)
  ∧ m_pManagedALC this' = last_managed_alc cs (m_pManagedALC this).
Proof.
  induction cs as [|c cs IH]; intros this w this' w'; simpl.
  - by intros [= <- _].
  - unfold bind.
    destruct (perform c this w) as [this1 w1| |] eqn:Hc; [|done..].
    intros (-> & -> & ->)%IH.
    destruct c; simpl in Hc; try (by injection Hc as <- _).
    by destruct (GoToStage_keeps_context _ _ _ _ _ Hc) as (-> & -> & ->).
Qed.

(** X3.  On a traced tracker whose HRESULT variable is live, a run of calls
    returns exactly when every transition it asks for passes the two
    assertions, that is, names a stage that is neither the stage current at
    that point nor the sentinel; otherwise the run ends in an assertion
    failure.  The setters, the assignments of the HRESULT and the switches
    of the event in between make no difference. *)
Theorem run_returns_iff_assertions_pass cs : ∀ this w hr,
  m_tracingEnabled this = true →
  hresults w !! m_hr this = Some hr →
  if passes_assertions (m_stage this) (stages_entered cs)
  then ∃ this' w', perform_all cs this w = Returned this' w'
  else perform_all cs this w = AssertionFailed.
Proof.
  induction cs as [|c cs IH]; intros this w hr Hon Hslot; simpl.
  - by eexists _, _.
  - unfold bind. destruct c; simpl; unfold ret.
    + by apply (IH (SetAssemblyName assemblyName this) w hr).
    + by apply (IH (SetManagedALC managedALC this) w hr).
    + by apply (IH (SetFoundAssembly assembly this) w hr).
    + case_bool_decide as Hne; simpl; [case_bool_decide as Hreal; simpl|].
      * rewrite GoToStage_enabled by done.
        rewrite (TraceStageEnd_live _ _ _ hr) by done.
        by apply (IH (set_m_stage stage this) _ hr).
      * rewrite GoToStage_rejects; [done..|]. right.
        by destruct (decide (stage = NotYetStarted)).
      * rewrite GoToStage_rejects; [done..|]. left.
        by destruct (decide (m_stage this = stage)).
    + apply (IH this _ hr0); [done|]. simpl. by rewrite lookup_insert_eq.
    + by apply (IH this _ hr).
Qed.

(** X4.  The values of [Stage] are pairwise different and fit 16 bits; the
    real stages are exactly the ones with a value below 6, and the sentinel
    has the largest 16-bit value.  The values of [Result] are pairwise
    different and lie between 0 and 4. *)
Theorem enum_values :
  (∀ s t, Stage_value s = Stage_value t → s = t)
  ∧ (∀ s, 0 ≤ Stage_value s < 2 ^ 16)
  ∧ (∀ s, s ≠ NotYetStarted ↔ Stage_value s < 6)
  ∧ Stage_value NotYetStarted = 2 ^ 16 - 1
  ∧ (∀ r r', Result_value r = Result_value r' → r = r')
  ∧ (∀ r, 0 ≤ Result_value r ≤ 4).
Proof.
  split_and!.
  - by intros [] [].
  - intros []; simpl; lia.
  - intros []; simpl; split; (done || lia).
  - done.
  - by intros [] [].
  - intros []; simpl; lia.
Qed.

Lemma real_stages_at_most_six (ss : list Stage) :
  NoDup ss → Forall (λ s, s ≠ NotYetStarted) ss → (length ss ≤ 6)%nat.
Proof.
  intros Hnodup Hreal.
  change 6%nat with
    (length [FindInLoadContext; AssemblyLoadContextLoad; PlatformAssemblies;
             DefaultAssemblyLoadContextFallback;
             AssemblyLoadContextResolvingEvent; AppDomainAssemblyResolveEvent]).
  apply submseteq_length, NoDup_submseteq; [done|].
  intros s Hs. rewrite Forall_forall in Hreal. specialize (Hreal s Hs).
  destruct s; set_solver.
Qed.

(** X5.  A traced tracker that is never asked to enter a stage twice goes
    through at most six transitions in a run that returns. *)
Theorem at_most_six_stages_without_revisit cs this w this' w' :
  m_tracingEnabled this = true →
  perform_all cs this w = Returned this' w' →
  NoDup (stages_entered cs) →
  (length (stages_entered cs) ≤ 6)%nat.
Proof.
  intros Hon Hrun Hnodup.
  destruct (accepted_run _ _ _ _ _ Hon Hrun) as (_ & Hreal & _).
  by apply real_stages_at_most_six.
Qed.

(** X6.  On a traced tracker, a transition that passes the assertions does
    to the process exactly what destruction would do at that point, and
    then makes the stage asked for the current one. *)
Theorem GoToStage_is_destruction_then_switch stage this w :
  m_tracingEnabled this = true →
  m_stage this ≠ stage →
  stage ≠ NotYetStarted →
  GoToStage stage this w
  = bind (ResolutionAttemptedOperation_dtor this)
      (λ _, ret (set_m_stage stage this)) w.
Proof.
  intros Hon Hne Hreal. rewrite GoToStage_enabled by done.
  unfold bind, ret, ResolutionAttemptedOperation_dtor. by rewrite Hon.
Qed.

End StageTrackerMore.

(** * The code run on the sample process *)
Section Runs.
Import Sample.
#[local] Existing Instance collaborators.

(** Closes a goal about a closed run of the code by running it. *)
Ltac by_running := vm_compute; reflexivity.

(** The sample scope emits the end of FindInLoadContext, classified from
    the failure held then, and at destruction the end of
    AssemblyLoadContextLoad, classified Success. *)
Example resolved_on_second_stage_trace :
  ∃ w', lifetime slot resolved_on_second_stage (process true) = Returned tt w'
        ∧ trace w'
          = [ ResolutionAttempted FindInLoadContext AssemblyNotFound
                (Some "Foo") None 0;
              ResolutionAttempted AssemblyLoadContextLoad Success
                (Some "Foo") (Some ("Foo", true)) 0 ].
Proof. eexists. split; by_running. Qed.

Lemma stage_end_per_stage_entered_witness :
  ∃ this1 w1 w',
    perform_all resolved_on_second_stage (tracker true) (process true)
    = Returned this1 w1
    ∧ ResolutionAttemptedOperation_dtor this1 w1 = Returned tt w'
    ∧ stage_ends (emitted_since (process true) w1) = [FindInLoadContext]
    ∧ stage_ends (emitted_since w1 w') = [AssemblyLoadContextLoad].
Proof.
  eexists _, _, _. split; [by_running|]. split; [by_running|].
  edestruct (stage_end_per_stage_entered resolved_on_second_stage
               (tracker true) (process true))
    as (_ & _ & Hcalls & _ & _ & Hlast & _);
    [reflexivity|by_running|by_running|].
  split; [exact Hcalls|exact Hlast].
Defined.

(** C1, as stated, fails: a scope that re-enters a stage it has left gets
    three stage-end events for two distinct stages. *)
Lemma stage_end_per_distinct_stage_counterexample :
  ∃ w', lifetime slot back_and_forth (process true) = Returned tt w'
        ∧ length (emitted_since (process true) w') = 3%nat
        ∧ length (remove_dups (stages_entered back_and_forth)) = 2%nat.
Proof. eexists. split_and!; by_running. Qed.

Lemma GoToStage_ends_current_stage_witness :
  ∃ w', GoToStage AssemblyLoadContextLoad
          (set_m_stage FindInLoadContext (tracker true)) (process true)
        = Returned (set_m_stage AssemblyLoadContextLoad (tracker true)) w'
        ∧ emitted_since (process true) w'
          = [ResolutionAttempted FindInLoadContext AssemblyNotFound None None 0].
Proof.
  destruct (GoToStage_ends_current_stage AssemblyLoadContextLoad
              (set_m_stage FindInLoadContext (tracker true)) (process true) E_FAIL)
    as (w' & Hgo & _ & _ & Hev & _);
    [reflexivity|discriminate|discriminate|by_running|].
  exists w'. split; [exact Hgo|exact Hev].
Defined.

(** C2, as stated, fails: the first GoToStage of a traced tracker leaves the
    sentinel and emits nothing; and a GoToStage to the current stage stops
    at the assertion, before any event. *)
Lemma first_GoToStage_emits_nothing_counterexample :
  m_tracingEnabled (tracker true) = true
  ∧ (∃ w', GoToStage FindInLoadContext (tracker true) (process true)
           = Returned (set_m_stage FindInLoadContext (tracker true)) w'
           ∧ emitted_since (process true) w' = [])
  ∧ GoToStage FindInLoadContext
      (set_m_stage FindInLoadContext (tracker true)) (process true)
    = AssertionFailed.
Proof.
  split_and!; [reflexivity| |by_running]. eexists. split; by_running.
Qed.

Lemma final_stage_end_iff_stage_entered_witness :
  ∃ this w,
    perform_all resolved_on_second_stage (tracker true) (process true)
    = Returned this w
    ∧ (m_stage this ≠ NotYetStarted
       ↔ EventEnabledResolutionAttempted (process true) = true
         ∧ stages_entered resolved_on_second_stage ≠ []).
Proof.
  eexists _, _. split; [by_running|].
  eapply (final_stage_end_iff_stage_entered slot resolved_on_second_stage
            (process true) (tracker true) (process true) _ _ S_OK);
    by_running.
Defined.

Lemma stage_end_classification_witness :
  ∃ r, TraceStageEnd FindInLoadContext (tracker true) (process true)
       = Returned tt
           (with_trace [ResolutionAttempted FindInLoadContext r None None 0]
              (process true))
       ∧ r = AssemblyNotFound.
Proof.
  destruct (stage_end_classification FindInLoadContext (tracker true)
              (process true) E_FAIL)
    as (r & Hend & _ & _ & Hnone & _); [discriminate|by_running|].
  exists r. split; [exact Hend|]. apply Hnone; reflexivity.
Defined.

Lemma disabled_tracker_emits_nothing_witness :
  ∃ w', lifetime slot (SwitchEvent true :: resolved_on_second_stage)
          (process false) = Returned tt w'
        ∧ trace w' = trace (process false).
Proof.
  destruct (disabled_tracker_emits_nothing slot
              (SwitchEvent true :: resolved_on_second_stage) (process false))
    as (this0 & this' & w' & _ & _ & _ & _ & _ & Htr & _ & Hlife & _);
    [reflexivity|].
  exists w'. split; [exact Hlife|exact Htr].
Defined.

(** C5, as stated, fails: on a tracker whose cached flag is off,
    SetAssemblyName still writes its member. *)
Lemma setter_writes_when_disabled_counterexample :
  m_tracingEnabled (tracker false) = false
  ∧ m_pAssemblyName (tracker false) = None
  ∧ m_pAssemblyName (SetAssemblyName (Some "Foo") (tracker false)) = Some "Foo"
  ∧ SetAssemblyName (Some "Foo") (tracker false) ≠ tracker false.
Proof. split_and!; [reflexivity..|discriminate]. Qed.

Lemma GoToStage_assertion_fails_iff_witness :
  GoToStage FindInLoadContext
    (set_m_stage FindInLoadContext (tracker true)) (process true)
  = AssertionFailed.
Proof.
  apply (proj2 (GoToStage_assertion_fails_iff FindInLoadContext
                  (set_m_stage FindInLoadContext (tracker true)) (process true))).
  split; [reflexivity|left; reflexivity].
Defined.

(** C7, as stated, fails: on a tracker whose cached flag is off, GoToStage
    with the sentinel, which is also the current stage, returns. *)
Lemma unguarded_GoToStage_counterexample :
  m_tracingEnabled (tracker false) = false
  ∧ m_stage (tracker false) = NotYetStarted
  ∧ GoToStage NotYetStarted (tracker false) (process false)
    = Returned (tracker false) (process false).
Proof. split_and!; reflexivity. Qed.

Lemma accepted_transitions_change_stage_witness :
  ∃ this' w',
    perform_all
      (CallGoToStage <$> [FindInLoadContext; PlatformAssemblies;
                          AppDomainAssemblyResolveEvent])
      (tracker true) (process true)
    = Returned this' w'.
Proof.
  destruct (accepted_transitions_change_stage (tracker true) (process true))
    as [_ Hclimb]; [reflexivity|].
  destruct (Hclimb [FindInLoadContext; PlatformAssemblies;
                    AppDomainAssemblyResolveEvent] E_FAIL)
    as [_ Hrun]; [by_running|by_running|].
  exact Hrun.
Defined.

(** C8, as stated, fails: from AssemblyLoadContextLoad the tracker accepts
    a transition back to FindInLoadContext, a stage it has visited. *)
Lemma backward_transition_counterexample :
  ∃ w1 w2,
    perform_all (CallGoToStage <$> [FindInLoadContext; AssemblyLoadContextLoad])
      (tracker true) (process true)
    = Returned (set_m_stage AssemblyLoadContextLoad (tracker true)) w1
    ∧ GoToStage FindInLoadContext
        (set_m_stage AssemblyLoadContextLoad (tracker true)) w1
      = Returned (set_m_stage FindInLoadContext (tracker true)) w2
    ∧ Stage_value FindInLoadContext < Stage_value AssemblyLoadContextLoad.
Proof. eexists _, _. split_and!; by_running. Qed.

Lemma GoToStage_unchecked_when_disabled_witness :
  GoToStage NotYetStarted (tracker false) (process false)
  = Returned (tracker false) (process false).
Proof.
  apply (GoToStage_unchecked_when_disabled (tracker false) (process false)).
  reflexivity.
Defined.

Lemma ignored_bind_emits_nothing_witness :
  ∃ w', bind_lifetime satellite_spec None
          [CallSetResult foo_dll false; SwitchTracing true] (process true)
        = Returned tt w'
        ∧ trace w' = trace (process true).
Proof.
  apply (ignored_bind_emits_nothing satellite_spec None
           [CallSetResult foo_dll false; SwitchTracing true] (process true)).
  reflexivity.
Defined.

(** For comparison, a bind that is not ignored gets its start and its stop. *)
Example traced_bind_emits_start_and_stop :
  ∃ w', bind_lifetime foo_spec None [CallSetResult foo_dll true] (process true)
        = Returned tt w'
        ∧ trace w'
          = [ AssemblyLoadStart "Foo" EmptyString "App" "Default" "Default";
              AssemblyLoadStop "Foo" EmptyString "App" "Default" "Default"
                true true ].
Proof. eexists. split; by_running. Qed.

Lemma PathProbed_emits_one_event_witness :
  ∃ w', PathProbed "/app/lib/Foo.dll" AppPaths E_FAIL (process true)
        = Returned tt w'
        ∧ emitted_since (process true) w'
          = [KnownPathProbed "/app/lib/Foo.dll" AppPaths E_FAIL].
Proof.
  destruct (PathProbed_emits_one_event "/app/lib/Foo.dll" AppPaths E_FAIL
              (process true)) as (w' & Hcall & _ & Hev & _).
  exists w'. split; [exact Hcall|exact Hev].
Defined.

End Runs.

(** * The further properties on the sample process *)
Section MoreRuns.
Import Sample.
#[local] Existing Instance collaborators.

Lemma context_is_last_set_witness :
  ∃ this' w',
    perform_all resolved_on_second_stage (tracker true) (process true)
    = Returned this' w'
    ∧ m_pAssemblyName this' = Some "Foo"
    ∧ m_pFoundAssembly this' = Some ("Foo", true)
    ∧ m_pManagedALC this' = 0.
Proof.
  eexists _, _. split; [vm_compute; reflexivity|].
  eapply (context_is_last_set resolved_on_second_stage
            (tracker true) (process true)).
  vm_compute; reflexivity.
Defined.

Lemma run_returns_iff_assertions_pass_witness :
  ∃ this' w',
    perform_all resolved_on_second_stage (tracker true) (process true)
    = Returned this' w'.
Proof.
  apply (run_returns_iff_assertions_pass resolved_on_second_stage
           (tracker true) (process true) E_FAIL);
    vm_compute; reflexivity.
Defined.

(** A transition to the stage the tracker is in, after other calls, is where
    a run stops. *)
Example repeated_stage_stops_the_run :
  perform_all
    [CallGoToStage PlatformAssemblies; CallSetManagedALC 7; AssignHr S_OK;
     CallGoToStage PlatformAssemblies; CallGoToStage AppDomainAssemblyResolveEvent]
    (tracker true) (process true)
  = AssertionFailed.
Proof. vm_compute; reflexivity. Qed.

Lemma at_most_six_stages_without_revisit_witness :
  (length
     (stages_entered
        (CallGoToStage <$>
           [FindInLoadContext; AssemblyLoadContextLoad; PlatformAssemblies;
            DefaultAssemblyLoadContextFallback;
            AssemblyLoadContextResolvingEvent; AppDomainAssemblyResolveEvent]))
   ≤ 6)%nat.
Proof.
  eapply (at_most_six_stages_without_revisit _ (tracker true) (process true)).
  - reflexivity.
  - vm_compute; reflexivity.
  - apply (bool_decide_unpack _). vm_compute; reflexivity.
Defined.

Lemma GoToStage_is_destruction_then_switch_witness :
  GoToStage AssemblyLoadContextLoad
    (set_m_stage FindInLoadContext (tracker true)) (process true)
  = bind
      (ResolutionAttemptedOperation_dtor
         (set_m_stage FindInLoadContext (tracker true)))
      (λ _, ret (set_m_stage AssemblyLoadContextLoad
                   (set_m_stage FindInLoadContext (tracker true))))
      (process true).
Proof.
  apply (GoToStage_is_destruction_then_switch AssemblyLoadContextLoad
           (set_m_stage FindInLoadContext (tracker true)) (process true));
    [reflexivity|discriminate|discriminate].
Defined.

End MoreRuns.
